(** * searchapp: the filter-driven search handlers of [app.py]

    A shallow embedding of the three handlers of [app.py]
    ([handle_search_step_event], [handle_filters_step_event] and
    [handle_flexpane_event]) together with the seeded catalog [SONGS],
    and the properties of the specification that concern them.

    Python values that reach the handlers from the outside (the [inputs]
    of a function invocation, the [event] of an inbound notification) are
    dynamically typed, so they are modelled by a small universe of Python
    values with the run-time errors of the operations the handlers apply
    to them.  Calls to the outside ([ack], [complete], [client.api_call],
    the logger) are recorded in a trace; the calls that cross the network
    may raise, as decided by an arbitrary environment. *)

From Stdlib Require Import ZArith String Ascii.
From stdpp Require Import base list strings gmap sets.

Local Open Scope string_scope.
Set Warnings "-register-all".

(** ** Python values and exceptions *)

(** The values a decoded JSON document is made of.  A [dict] keeps its
    keys in insertion order, so it is an association list. *)
Inductive pyval : Type :=
  | PNone
  | PBool (b : bool)
  | PInt (z : Z)
  | PStr (s : string)
  | PList (l : list pyval)
  | PDict (d : list (string * pyval)).

(** Instances of Python's [Exception]: the built-in errors the handlers
    can run into, and [ExternalError] for whatever a call to the outside
    raises (an API error, a connection error). *)
Inductive exn : Type :=
  | KeyError (key : string)
  | TypeError (msg : string)
  | AttributeError (msg : string)
  | ExternalError (msg : string).

(** [str(e)] *)
Definition exn_str (e : exn) : string :=
  match e with
  | KeyError key => "'" +:+ key +:+ "'"
  | TypeError msg => msg
  | AttributeError msg => msg
  | ExternalError msg => msg
  end.

Inductive result (A : Type) : Type :=
  | Ok (a : A)
  | Raise (e : exn).
Arguments Ok {A} a.
Arguments Raise {A} e.

Definition type_name (v : pyval) : string :=
  match v with
  | PNone => "NoneType"
  | PBool _ => "bool"
  | PInt _ => "int"
  | PStr _ => "str"
  | PList _ => "list"
  | PDict _ => "dict"
  end.

(** [bool(v)]: the truth value Python's [if v:] tests. *)
Definition truthy (v : pyval) : bool :=
  match v with
  | PNone => false
  | PBool b => b
  | PInt z => negb (z =? 0)%Z
  | PStr s => negb (String.eqb s "")
  | PList l => match l with [] => false | _ => true end
  | PDict d => match d with [] => false | _ => true end
  end.

(** Lookup in the association list of a [dict]. *)
Fixpoint dict_lookup (k : string) (d : list (string * pyval)) : option pyval :=
  match d with
  | [] => None
  | (k', v) :: d' => if String.eqb k k' then Some v else dict_lookup k d'
  end.

Definition dict_keys (d : list (string * pyval)) : list string := map fst d.

(** [v[k]] for a string key [k]: a [dict] looks the key up, a list or
    a string wants an integer, the other values have no subscript. *)
Definition subscript (v : pyval) (k : string) : result pyval :=
  match v with
  | PDict d =>
      match dict_lookup k d with
      | Some x => Ok x
      | None => Raise (KeyError k)
      end
  | PList _ => Raise (TypeError "list indices must be integers or slices, not str")
  | PStr _ => Raise (TypeError "string indices must be integers, not 'str'")
  | _ => Raise (TypeError ("'" +:+ type_name v +:+ "' object is not subscriptable"))
  end.

(** [v.get(k, default)]: only a [dict] has the method. *)
Definition py_get (v : pyval) (k : string) (default : pyval) : result pyval :=
  match v with
  | PDict d => Ok (match dict_lookup k d with Some x => x | None => default end)
  | _ => Raise (AttributeError
                  ("'" +:+ type_name v +:+ "' object has no attribute 'get'"))
  end.

(** [s in t] for two strings: [s] occurs in [t]. *)
Fixpoint str_contains (t s : string) : bool :=
  String.prefix s t ||
  match t with
  | EmptyString => false
  | String _ t' => str_contains t' s
  end.

(** [s == v] for a string [s]. *)
Definition str_eq_val (s : string) (v : pyval) : bool :=
  match v with
  | PStr t => String.eqb s t
  | _ => false
  end.

(** [s in c] for a string [s]: membership in a list, substring of a
    string, key of a dict; the other values are not iterable. *)
Definition str_in (s : string) (c : pyval) : result bool :=
  match c with
  | PList l => Ok (existsb (str_eq_val s) l)
  | PStr t => Ok (str_contains t s)
  | PDict d => Ok (existsb (String.eqb s) (dict_keys d))
  | _ => Raise (TypeError
                  ("argument of type '" +:+ type_name c +:+ "' is not iterable"))
  end.

(** ** Models *)

Inductive FilterType : Type := MULTI_SELECT | TOGGLE.

Definition FilterType_value (t : FilterType) : string :=
  match t with
  | MULTI_SELECT => "multi_select"
  | TOGGLE => "toggle"
  end.

(** A catalog entry.  Every entry of the catalog has the keys of the
    [Song] dictionary type; ["content"] is the one key an entry may
    lack, so it is optional here. *)
Record Song : Type := mkSong {
  id : string;
  title : string;
  description : string;
  link : string;
  band : string;
  is_single : bool;
  date_updated : string;
  content : option string
}.

(** ** Data *)

Definition dq : string := String (ascii_of_nat 34) EmptyString.

Definition SONGS : list Song := [
  {| id := "pf-001";
     title := "Comfortably Numb";
     description := "From the album 'The Wall' (1979), features one of David Gilmour's most famous guitar solos";
     link := "https://example.com/pinkfloyd/comfortably-numb";
     band := "Pink Floyd";
     is_single := false;
     date_updated := "2023-01-01";
     content := Some ("Comfortably Numb is a song by the English rock band Pink Floyd, released on their eleventh studio album, The Wall (1979). It was released as a single in 1980, with " +:+ dq +:+ "Hey You" +:+ dq +:+ " as the B-side.The lyrics were written by the bassist, Roger Waters, who recalled his experience of being injected with tranquilisers before a performance in 1977; the music was composed by the band's guitarist, David Gilmour. Waters and Gilmour argued during the recording, with Waters seeking an orchestral arrangement and Gilmour preferring a more stripped-down arrangement. They compromised by combining both versions, and Gilmour said the song was the last time he and Waters were able to work together constructively.") |};
  {| id := "pf-002";
     title := "Wish You Were Here";
     description := "Title track from the 1975 album, written as a tribute to former band member Syd Barrett";
     link := "https://example.com/pinkfloyd/wish-you-were-here";
     band := "Pink Floyd";
     is_single := false;
     date_updated := "2023-02-01";
     content := None |};
  {| id := "pf-003";
     title := "Time";
     description := "From the album 'The Dark Side of the Moon' (1973), known for its iconic clock sound effects";
     link := "https://example.com/pinkfloyd/time";
     band := "Pink Floyd";
     is_single := false;
     date_updated := "2023-03-01";
     content := None |};
  {| id := "rs-001";
     title := "Paint It Black";
     description := "Released as a single in 1966, reaching number one on both UK and US charts";
     link := "https://example.com/rollingstones/paint-it-black";
     band := "Rolling Stones";
     is_single := true;
     date_updated := "2023-04-15";
     content := None |};
  {| id := "rs-002";
     title := "Sympathy for the Devil";
     description := "From the album 'Beggars Banquet' (1968), one of their most controversial songs";
     link := "https://example.com/rollingstones/sympathy-for-the-devil";
     band := "Rolling Stones";
     is_single := false;
     date_updated := "2023-05-20";
     content := None |};
  {| id := "beatles-001";
     title := "Hey Jude";
     description := "Released as a single in 1968, became one of their biggest hits";
     link := "https://example.com/beatles/hey-jude";
     band := "The Beatles";
     is_single := true;
     date_updated := "2023-06-10";
     content := None |};
  {| id := "beatles-002";
     title := "Let It Be";
     description := "From the album 'Let It Be' (1970), one of their final singles";
     link := "https://example.com/beatles/let-it-be";
     band := "The Beatles";
     is_single := true;
     date_updated := "2023-07-05";
     content := None |};
  {| id := "lz-001";
     title := "Stairway to Heaven";
     description := "From the album 'Led Zeppelin IV' (1971), often cited as one of greatest rock songs of all time";
     link := "https://example.com/ledzeppelin/stairway-to-heaven";
     band := "Led Zeppelin";
     is_single := false;
     date_updated := "2023-08-12";
     content := None |};
  {| id := "queen-001";
     title := "Bohemian Rhapsody";
     description := "From the album 'A Night at the Opera' (1975), pioneering song with no chorus";
     link := "https://example.com/queen/bohemian-rhapsody";
     band := "Queen";
     is_single := true;
     date_updated := "2023-09-18";
     content := Some "Bohemian Rhapsody can refer to two distinct entities: the iconic song by the British rock band Queen, and the 2018 biographical film about the band and its lead singer, Freddie Mercury." |};
  {| id := "acdc-001";
     title := "Back in Black";
     description := "Title track from the 1980 album, written as a tribute to deceased singer Bon Scott";
     link := "https://example.com/acdc/back-in-black";
     band := "AC/DC";
     is_single := true;
     date_updated := "2023-10-25";
     content := Some "Back in Black is the seventh studio album by Australian rock band AC/DC, released on 25 July 1980, by Albert Productions and Atlantic Records. It was the band's first album to feature Brian Johnson as lead singer, following the death of their previous vocalist Bon Scott. After the commercial breakthrough of their 1979 album Highway to Hell, AC/DC was planning to record a follow-up, but in February 1980, Scott died from alcohol poisoning after a drinking binge. The remaining members of the group considered disbanding, but ultimately chose to continue on and recruited Johnson, who had previously been the vocalist for Geordie." |}
].

(** ** Effects *)

(** What a handler does to the outside, in the order it does it. *)
Inductive event : Type :=
  | EvAck
  | EvComplete (outputs : pyval)
  | EvApiCall (api_method : string) (json : pyval)
  | EvLogInfo (msg : string) (v : pyval)
  | EvLogError (msg : string).

(** The environment decides, from what has happened so far, whether a
    call to the outside raises. *)
Definition world : Type := list event -> event -> option exn.

(** A computation reads the environment, extends the trace and returns
    or raises. *)
Definition M (A : Type) : Type := world -> list event -> list event * result A.

Definition ret {A} (a : A) : M A := fun _ tr => (tr, Ok a).

Definition raise {A} (e : exn) : M A := fun _ tr => (tr, Raise e).

Definition bind {A B} (m : M A) (k : A -> M B) : M B :=
  fun w tr =>
    match m w tr with
    | (tr', Ok a) => k a w tr'
    | (tr', Raise e) => (tr', Raise e)
    end.

Notation "x <- m ;; k" := (bind m (fun x => k))
  (at level 100, m at next level, right associativity).
Notation "m ;;; k" := (bind m (fun _ => k))
  (at level 100, right associativity).

Definition lift {A} (r : result A) : M A :=
  match r with
  | Ok a => ret a
  | Raise e => raise e
  end.

(** A call to the outside: it is recorded, then it returns or raises as
    the environment decides. *)
Definition call (ev : event) : M unit :=
  fun w tr =>
    ((tr ++ [ev])%list, match w tr ev with Some e => Raise e | None => Ok tt end).

(** The logger records its message and does not raise. *)
Definition log (ev : event) : M unit := fun _ tr => ((tr ++ [ev])%list, Ok tt).

(** [try: body finally: fin]: [fin] runs on every way out of [body]; an
    exception of [fin] replaces the outcome of [body]. *)
Definition try_finally {A} (body : M A) (fin : M unit) : M A :=
  fun w tr =>
    match body w tr with
    | (tr', r) =>
        match fin w tr' with
        | (tr'', Ok _) => (tr'', r)
        | (tr'', Raise e) => (tr'', Raise e)
        end
    end.

(** [try: body except Exception as e: handler(e)] *)
Definition try_except {A} (body : M A) (handler : exn -> M A) : M A :=
  fun w tr =>
    match body w tr with
    | (tr', Ok a) => (tr', Ok a)
    | (tr', Raise e) => handler e w tr'
    end.

(** A list comprehension [[x for x in l if p(x)]] whose condition may
    raise: the elements are tested in order and the first error ends it. *)
Fixpoint filter_result {A} (p : A -> result bool) (l : list A) : result (list A) :=
  match l with
  | [] => Ok []
  | x :: l' =>
      match p x with
      | Raise e => Raise e
      | Ok b =>
          match filter_result p l' with
          | Raise e => Raise e
          | Ok r => Ok (if b then x :: r else r)
          end
      end
  end.

Definition ack : M unit := call EvAck.
Definition complete (outputs : pyval) : M unit := call (EvComplete outputs).
Definition api_call (api_method : string) (json : pyval) : M unit :=
  call (EvApiCall api_method json).
Definition logger_info (msg : string) (v : pyval) : M unit := log (EvLogInfo msg v).
Definition logger_error (msg : string) : M unit := log (EvLogError msg).

(** Running a handler from the empty trace. *)
Definition run {A} (m : M A) (w : world) : list event * result A := m w [].

(** The iteration order of a Python [set] of strings is not fixed by the
    language; all that is known is that every element comes once. *)
Class SetIteration : Type := {
  set_iter : gset string -> list string;
  set_iter_perm : forall X : gset string, set_iter X ≡ₚ elements X
}.

#[export] Instance elements_iteration : SetIteration :=
  {| set_iter := elements; set_iter_perm := fun X => reflexivity (elements X) |}.

(** ** Application *)

(** The two narrowing steps of the search handler, over any catalog:
    [filtered_songs] after the two [if] statements. *)
Definition filter_songs (catalog : list Song) (singles_filter bands_filter : pyval)
  : result (list Song) :=
  let filtered_songs :=
    if truthy singles_filter then filter (fun song => is_single song = true) catalog
    else catalog in
  if truthy bands_filter
  then filter_result (fun song => str_in (band song) bands_filter) filtered_songs
  else Ok filtered_songs.

(** One record of [results]. *)
Definition search_result (song : Song) : pyval :=
  PDict (([("title", PStr (title song));
          ("description", PStr (description song));
          ("link", PStr (link song));
          ("date_updated", PStr (date_updated song));
          ("external_ref", PDict [("id", PStr (id song))])]
         ++ match content song with
            | Some c => [("content", PStr c)]
            | None => []
            end)%list).

Definition search_on (catalog : list Song) (inputs : pyval) : M unit :=
  filters <- lift (subscript inputs "filters") ;;
  singles_filter <- lift (py_get filters "is_single" (PBool false)) ;;
  bands_filter <- lift (py_get filters "bands" (PList [])) ;;
  try_finally
    (filtered_songs <- lift (filter_songs catalog singles_filter bands_filter) ;;
     let results := map search_result filtered_songs in
     logger_info "Generated results: " (PList results) ;;;
     complete (PDict [("search_result", PList results)]))
    ack.

Definition handle_search_step_event (inputs : pyval) : M unit :=
  search_on SONGS inputs.

Section Filters.
Context `{SetIteration}.

Definition unique_bands (catalog : list Song) : gset string :=
  list_to_set (map band catalog).

Definition band_option (b : string) : pyval :=
  PDict [("name", PStr b); ("value", PStr b)].

(** The list [filters] of the filters handler, over any catalog. *)
Definition list_filters (catalog : list Song) : list pyval :=
  [ PDict [("name", PStr "bands");
           ("display_name", PStr "Bands");
           ("type", PStr (FilterType_value MULTI_SELECT));
           ("options", PList (map band_option (set_iter (unique_bands catalog))))];
    PDict [("name", PStr "is_single");
           ("display_name", PStr "Singles Only");
           ("type", PStr (FilterType_value TOGGLE))] ].

Definition filters_on (catalog : list Song) (inputs : pyval) : M unit :=
  try_finally
    (let filters := list_filters catalog in
     complete (PDict [("filters", PList filters)]))
    ack.

Definition handle_filters_step_event (inputs : pyval) : M unit :=
  filters_on SONGS inputs.
End Filters.

(** The [payload] of the entity-details handler. *)
Definition flexpane_payload (event : pyval) : result pyval :=
  match subscript event "trigger_id" with
  | Raise e => Raise e
  | Ok trigger_id =>
      match subscript event "link" with
      | Raise e => Raise e
      | Ok lnk =>
          match subscript lnk "url" with
          | Raise e => Raise e
          | Ok url =>
              Ok (PDict [
                ("trigger_id", trigger_id);
                ("metadata", PDict [
                  ("entity_type", PStr "slack#/entities/item");
                  ("url", url);
                  ("external_ref", PDict [("id", PStr "123")]);
                  ("entity_payload", PDict [
                    ("attributes", PDict [
                      ("title", PDict [
                        ("text", PStr "hello world");
                        ("edit", PDict [
                          ("enabled", PBool true);
                          ("text", PDict [("max_length", PInt 50)])])])]);
                    ("custom_fields", PList [
                      PDict [("key", PStr "description");
                             ("label", PStr "Description");
                             ("type", PStr "string");
                             ("value", PStr "This is a description")]])])])])
          end
      end
  end.

Definition handle_flexpane_event (event body : pyval) : M unit :=
  logger_info "entity_details_requested body: " body ;;;
  logger_info "entity_details_requested event: " event ;;;
  payload <- lift (flexpane_payload event) ;;
  try_except
    (api_call "entity.presentDetails" payload)
    (fun e => logger_error ("Error calling entity.presentDetails: " +:+ exn_str e)).

(** ** Vocabulary of the specification *)

(** What the specification asks of an entity under a selection: each
    active filter holds, an inactive one asks nothing. *)
Definition selected (single : pyval) (bands : list string) (song : Song) : Prop :=
  (truthy single = true -> is_single song = true) /\
  (bands <> [] -> band song ∈ bands).

#[export] Instance selected_dec single bands song :
  Decision (selected single bands song).
Proof. unfold selected. apply _. Defined.

(** What the search handler does when nothing goes wrong. *)
Definition search_trace (found : list Song) : list event :=
  let results := map search_result found in
  [EvLogInfo "Generated results: " (PList results);
   EvComplete (PDict [("search_result", PList results)]);
   EvAck].

(** How the search handler ends after that trace: an exception of the
    acknowledgment replaces one of the completion. *)
Definition search_outcome (w : world) (found : list Song) : result unit :=
  let results := map search_result found in
  let logged := [EvLogInfo "Generated results: " (PList results)] in
  let completion := EvComplete (PDict [("search_result", PList results)]) in
  match w (logged ++ [completion])%list EvAck with
  | Some e => Raise e
  | None =>
      match w logged completion with
      | Some e => Raise e
      | None => Ok tt
      end
  end.

(** The values on which [in] is defined, and the ones [if] skips. *)
Definition collection_or_falsy (v : pyval) : bool :=
  match v with
  | PList _ | PStr _ | PDict _ => true
  | _ => negb (truthy v)
  end.

Definition is_ack (ev : event) : bool :=
  match ev with
  | EvAck => true
  | _ => false
  end.

(** How often a trace acknowledges. *)
Definition acks (tr : list event) : nat := length (List.filter is_ack tr).

(** The payloads a trace forwards to the presentation API. *)
Definition forwarded (tr : list event) : list (string * pyval) :=
  flat_map (fun ev => match ev with
                      | EvApiCall api_method json => [(api_method, json)]
                      | _ => []
                      end) tr.

(** [v[k1][k2]...] *)
Fixpoint subscript_path (v : pyval) (ks : list string) : result pyval :=
  match ks with
  | [] => Ok v
  | k :: ks' =>
      match subscript v k with
      | Ok x => subscript_path x ks'
      | Raise e => Raise e
      end
  end.

(** The keys of a record, in order (nothing for a value that is no dict). *)
Definition keys_of (v : pyval) : list string :=
  match v with
  | PDict d => dict_keys d
  | _ => []
  end.

(** The definition of a given name in a list of filter definitions. *)
Definition filter_named (name : string) (filters : list pyval) : option pyval :=
  List.find (fun defn => match subscript defn "name" with
                         | Ok (PStr n) => String.eqb n name
                         | _ => false
                         end) filters.

(** The option set of a filter definition. *)
Definition options_of (defn : pyval) : list pyval :=
  match subscript defn "options" with
  | Ok (PList opts) => opts
  | _ => []
  end.

(** The titles of the entities a search found. *)
Definition titles (r : result (list Song)) : result (list string) :=
  match r with
  | Ok found => Ok (title <$> found)
  | Raise e => Raise e
  end.

(** The environment in which no call to the outside fails. *)
Definition calm : world := fun _ _ => None.

(** The strings among the elements of a list. *)
Definition strings_of (l : list pyval) : list string :=
  omap (fun v => match v with PStr s => Some s | _ => None end) l.

(** The singles step of the search handler alone. *)
Definition singles_step (catalog : list Song) (singles_filter : pyval) : list Song :=
  if truthy singles_filter then filter (fun song => is_single song = true) catalog
  else catalog.

(** An environment in which the completion call fails and nothing else. *)
Definition completion_down : world :=
  fun _ ev => match ev with
              | EvComplete _ => Some (ExternalError "connection reset")
              | _ => None
              end.

(** * Properties *)

(** ** The narrowing steps *)

Section FilterResult.
Context {A : Type}.

(** A condition that never raises makes the comprehension a filter. *)
Lemma filter_result_total (p : A -> result bool) (q : A -> bool) (l : list A) :
  (forall x, x ∈ l -> p x = Ok (q x)) ->
  filter_result p l = Ok (filter (fun x => q x = true) l).
Proof.
  induction l as [|x l IH]; intros Hp; [done|].
  cbn [filter_result]. rewrite (Hp x) by apply list_elem_of_here.
  rewrite IH by (intros y Hy; apply Hp; by apply list_elem_of_further).
  rewrite filter_cons. destruct (decide (q x = true)) as [E|E].
  - by rewrite E.
  - apply not_true_is_false in E. by rewrite E.
Qed.

Lemma filter_everything (P : A -> Prop) `{!forall x, Decision (P x)} (l : list A) :
  (forall x, x ∈ l -> P x) -> filter P l = l.
Proof.
  induction l as [|x l IH]; intros HP; [done|].
  rewrite filter_cons_True by (apply HP, list_elem_of_here).
  f_equal. apply IH. intros y Hy. by apply HP, list_elem_of_further.
Qed.

(** A stronger condition keeps a subsequence. *)
Lemma filter_sublist_mono (P Q : A -> Prop)
    `{!forall x, Decision (P x)} `{!forall x, Decision (Q x)} (l : list A) :
  (forall x, P x -> Q x) -> filter P l `sublist_of` filter Q l.
Proof.
  intros HPQ. induction l as [|x l IH]; [done|].
  rewrite !filter_cons. destruct (decide (P x)) as [HP|HP].
  - rewrite decide_True by auto. by apply sublist_skip.
  - destruct (decide (Q x)); [by apply sublist_cons|done].
Qed.
End FilterResult.

Lemma str_in_list (s : string) (bands : list string) :
  str_in s (PList (PStr <$> bands)) = Ok (bool_decide (s ∈ bands)).
Proof.
  cbn [str_in]. f_equal. induction bands as [|b bands IH]; [done|].
  cbn [fmap list_fmap existsb str_eq_val]. rewrite IH.
  destruct (String.eqb_spec s b) as [->|Hne].
  - cbn [orb]. symmetry. apply bool_decide_eq_true_2, list_elem_of_here.
  - cbn [orb]. apply bool_decide_ext. rewrite elem_of_cons. tauto.
Qed.

Lemma truthy_list (bands : list string) :
  truthy (PList (PStr <$> bands)) = bool_decide (bands <> []).
Proof. by destruct bands. Qed.

(** The query engine on a well-typed selection: the conjunction of the
    active filters, in catalog order. *)
Lemma filter_songs_selected (catalog : list Song) (single : pyval) (bands : list string) :
  filter_songs catalog single (PList (PStr <$> bands))
  = Ok (filter (selected single bands) catalog).
Proof.
  unfold filter_songs. rewrite truthy_list.
  destruct bands as [|b bands].
  - rewrite bool_decide_eq_false_2 by naive_solver.
    destruct (truthy single) eqn:Hs; f_equal.
    + apply list_filter_iff. intros song. unfold selected. rewrite Hs. tauto.
    + symmetry. apply filter_everything. intros song _. unfold selected.
      rewrite Hs. split; congruence.
  - rewrite bool_decide_eq_true_2 by done.
    rewrite (filter_result_total _ (fun song => bool_decide (band song ∈ b :: bands)))
      by (intros; apply str_in_list).
    assert (b :: bands <> []) as Hne by done.
    f_equal. destruct (truthy single) eqn:Hs.
    + rewrite list_filter_filter. apply list_filter_iff. intros song.
      unfold selected. rewrite bool_decide_eq_true, Hs. tauto.
    + apply list_filter_iff. intros song.
      unfold selected. rewrite bool_decide_eq_true, Hs.
      split; [intros ?; split; [congruence|done]|tauto].
Qed.

(** The search handler once its two filters are read: the guarded block
    runs, whatever the environment does. *)
Lemma search_on_run catalog inputs filters single bands found (w : world) :
  subscript inputs "filters" = Ok filters ->
  py_get filters "is_single" (PBool false) = Ok single ->
  py_get filters "bands" (PList []) = Ok bands ->
  filter_songs catalog single bands = Ok found ->
  run (search_on catalog inputs) w = (search_trace found, search_outcome w found).
Proof.
  intros Hf Hs Hb Hfound.
  unfold run, search_on, bind, lift, try_finally, search_outcome.
  rewrite Hf. cbn. rewrite Hs. cbn. rewrite Hb. cbn. rewrite Hfound. cbn.
  unfold search_trace.
  repeat (match goal with |- context [w ?tr ?ev] => destruct (w tr ev) end; cbn);
    reflexivity.
Qed.

Lemma search_on_trace catalog inputs filters single bands found (w : world) :
  subscript inputs "filters" = Ok filters ->
  py_get filters "is_single" (PBool false) = Ok single ->
  py_get filters "bands" (PList []) = Ok bands ->
  filter_songs catalog single bands = Ok found ->
  (run (search_on catalog inputs) w).1 = search_trace found.
Proof. intros. by erewrite search_on_run. Qed.

Lemma sublist_projection {A B} (f : A -> B) (l1 l2 : list A) :
  l1 `sublist_of` l2 -> (f <$> l1) `sublist_of` (f <$> l2).
Proof.
  induction 1 as [|x l1 l2 _ IH|x l1 l2 _ IH]; cbn.
  - constructor.
  - by apply sublist_skip.
  - by apply sublist_cons.
Qed.

Lemma search_on_empty_selection catalog (w : world) :
  (run (search_on catalog (PDict [("filters", PDict [])])) w).1
  = search_trace catalog.
Proof. by apply (search_on_trace _ _ (PDict []) (PBool false) (PList [])). Qed.

(** C1: for a selection whose [bands] are a list of band names, the
    search handler completes with exactly the catalog entities that
    satisfy the conjunction of the active filters (a truthy [is_single]
    asks for singles, a non-empty [bands] asks for membership), in
    catalog order; an inactive filter asks nothing, and the empty
    selection returns the whole catalog. *)
Theorem search_returns_selected
    catalog inputs filters single (bands : list string) (w : world) :
  subscript inputs "filters" = Ok filters ->
  py_get filters "is_single" (PBool false) = Ok single ->
  py_get filters "bands" (PList []) = Ok (PList (PStr <$> bands)) ->
  let found := filter (selected single bands) catalog in
  (run (search_on catalog inputs) w).1 = search_trace found
  /\ (forall song, song ∈ found <-> selected single bands song /\ song ∈ catalog)
  /\ found `sublist_of` catalog
  /\ (truthy single = false -> bands = [] -> found = catalog)
  /\ (run (search_on catalog (PDict [("filters", PDict [])])) w).1
     = search_trace catalog.
Proof.
  intros Hf Hs Hb found.
  split; [eapply search_on_trace; eauto using filter_songs_selected|].
  split; [intros song; apply list_elem_of_filter|].
  split; [apply sublist_filter|].
  split; [|apply search_on_empty_selection].
  intros Hsingle ->. apply filter_everything. intros song _.
  unfold selected. rewrite Hsingle. split; congruence.
Qed.

Lemma search_returns_selected_witness :
  (run (handle_search_step_event
          (PDict [("filters",
                   PDict [("is_single", PBool true);
                          ("bands", PList [PStr "Queen"; PStr "AC/DC"])])]))
       calm).1
  = search_trace (filter (selected (PBool true) ["Queen"; "AC/DC"]) SONGS).
Proof.
  refine (proj1 (search_returns_selected SONGS _
                   (PDict [("is_single", PBool true);
                           ("bands", PList [PStr "Queen"; PStr "AC/DC"])])
                   (PBool true) ["Queen"; "AC/DC"] calm _ _ _));
    reflexivity.
Defined.

(** C10: for a fixed [is_single] selection and band sets [S ⊆ S'] with
    [S] non-empty, every entity found for [S] is found for [S'], and
    the entities (and the projected results) for [S] are a subsequence
    of those for [S']. *)
Theorem bands_filter_monotone catalog single (S S' : list string) :
  S <> [] -> S ⊆ S' ->
  exists found found',
    filter_songs catalog single (PList (PStr <$> S)) = Ok found /\
    filter_songs catalog single (PList (PStr <$> S')) = Ok found' /\
    (forall song, song ∈ found -> song ∈ found') /\
    found `sublist_of` found' /\
    (search_result <$> found) `sublist_of` (search_result <$> found').
Proof.
  intros Hne Hsub.
  exists (filter (selected single S) catalog), (filter (selected single S') catalog).
  assert (filter (selected single S) catalog
          `sublist_of` filter (selected single S') catalog) as Hmono.
  { apply filter_sublist_mono. intros song [Hsingle Hband].
    split; [done|]. intros _. by apply Hsub, Hband. }
  split; [apply filter_songs_selected|].
  split; [apply filter_songs_selected|].
  split; [intros song Hsong; by eapply elem_of_sublist|].
  split; [done|]. by apply sublist_projection.
Qed.

Lemma bands_filter_monotone_witness :
  exists found found',
    filter_songs SONGS (PBool false) (PList [PStr "Queen"]) = Ok found /\
    filter_songs SONGS (PBool false) (PList [PStr "Queen"; PStr "AC/DC"]) = Ok found' /\
    (forall song, song ∈ found -> song ∈ found') /\
    found `sublist_of` found' /\
    (search_result <$> found) `sublist_of` (search_result <$> found').
Proof.
  apply (bands_filter_monotone SONGS (PBool false) ["Queen"] ["Queen"; "AC/DC"]).
  - discriminate.
  - intros b Hb. apply list_elem_of_singleton in Hb as ->. apply list_elem_of_here.
Defined.

(** ** The seeded catalog *)

Example search_no_selection :
  filter_songs SONGS (PBool false) (PList []) = Ok SONGS.
Proof. reflexivity. Qed.

Example search_singles :
  titles (filter_songs SONGS (PBool true) (PList []))
  = Ok ["Paint It Black"; "Hey Jude"; "Let It Be"; "Bohemian Rhapsody"; "Back in Black"].
Proof. reflexivity. Qed.

Example search_queen :
  titles (filter_songs SONGS (PBool false) (PList [PStr "Queen"]))
  = Ok ["Bohemian Rhapsody"].
Proof. reflexivity. Qed.

Example search_pink_floyd_singles :
  filter_songs SONGS (PBool true) (PList [PStr "Pink Floyd"]) = Ok [].
Proof. reflexivity. Qed.

(** ** The projection *)

(** C2: a projected record has the keys title, description, link,
    date_updated and external_ref (which carries the id of the entity),
    and content exactly when the entity has it.  It has no [id] key of
    its own, although [SearchResult] declares one, and the reference is
    not under the declared key [entity_reference]; [band] and
    [is_single] are not echoed. *)
Theorem search_result_fields (song : Song) :
  keys_of (search_result song)
  = (["title"; "description"; "link"; "date_updated"; "external_ref"]
     ++ match content song with Some _ => ["content"] | None => [] end)%list
  /\ subscript (search_result song) "id" = Raise (KeyError "id")
  /\ subscript (search_result song) "entity_reference"
     = Raise (KeyError "entity_reference")
  /\ subscript (search_result song) "external_ref"
     = Ok (PDict [("id", PStr (id song))])
  /\ subscript (search_result song) "band" = Raise (KeyError "band")
  /\ subscript (search_result song) "is_single" = Raise (KeyError "is_single").
Proof. unfold search_result. by destruct (content song). Qed.

(** C7: the content of an entity that has one is in its record under
    the key content, unchanged; the record of an entity without content
    has no such key at all (neither a null nor an empty string). *)
Theorem content_round_trip (song : Song) :
  exists d,
    search_result song = PDict d /\
    dict_lookup "content" d = PStr <$> content song /\
    ("content" ∈ dict_keys d <-> is_Some (content song)) /\
    (content song = None ->
     subscript (search_result song) "content" = Raise (KeyError "content")).
Proof.
  unfold search_result. destruct (content song) as [c|]; eexists; cbn.
  - split; [done|]. split; [done|]. split; [|done].
    split; [by eauto|]. intros _. do 5 apply list_elem_of_further.
    apply list_elem_of_here.
  - split; [done|]. split; [done|]. split; [|done].
    split; [|by intros [? ?]].
    intros Hin. repeat (apply elem_of_cons in Hin as [?|Hin]; [done|]).
    by apply elem_of_nil in Hin.
Qed.

(** ** The filter registry *)

Section FilterRegistry.
Context `{SetIteration}.

Lemma set_iter_NoDup (X : gset string) : NoDup (set_iter X).
Proof. rewrite set_iter_perm. apply NoDup_elements. Qed.

Lemma set_iter_elem_of (X : gset string) (b : string) : b ∈ set_iter X <-> b ∈ X.
Proof. rewrite set_iter_perm. apply elem_of_elements. Qed.

Lemma set_iter_length (X : gset string) : length (set_iter X) = size X.
Proof. by rewrite set_iter_perm. Qed.

Lemma unique_bands_spec (catalog : list Song) (b : string) :
  b ∈ unique_bands catalog <-> exists song, song ∈ catalog /\ band song = b.
Proof.
  unfold unique_bands. rewrite elem_of_list_to_set, list_elem_of_fmap.
  split; intros (song & ? & ?); by exists song.
Qed.

#[local] Instance band_option_inj : Inj (=) (=) band_option.
Proof. intros b1 b2 Heq. by injection Heq. Qed.

(** The filters handler over any inputs and any environment: the
    definitions are computed and completed, then acknowledged. *)
Lemma filters_on_trace catalog inputs (w : world) :
  (run (filters_on catalog inputs) w).1
  = [EvComplete (PDict [("filters", PList (list_filters catalog))]); EvAck].
Proof.
  unfold run, filters_on, try_finally, complete, ack, call. cbn.
  repeat (match goal with |- context [w ?tr ?ev] => destruct (w tr ev) end; cbn);
    reflexivity.
Qed.

(** C4: the registry consists of exactly two definitions, in this
    order: the multi-select [bands], whose options each have name and
    value equal to one band of the catalog, every band once, and the
    toggle [is_single].  An empty catalog gives [bands] with no
    options.  Whatever the inputs, the handler computes these
    definitions and completes with them; nothing in it raises when
    the calls to the outside do not. *)
Theorem list_filters_shape catalog inputs (w : world) :
  exists bs : list string,
    list_filters catalog
    = [ PDict [("name", PStr "bands");
               ("display_name", PStr "Bands");
               ("type", PStr "multi_select");
               ("options", PList (band_option <$> bs))];
        PDict [("name", PStr "is_single");
               ("display_name", PStr "Singles Only");
               ("type", PStr "toggle")] ]
    /\ (forall b, band_option b = PDict [("name", PStr b); ("value", PStr b)])
    /\ NoDup bs
    /\ (forall b, b ∈ bs <-> exists song, song ∈ catalog /\ band song = b)
    /\ (catalog = [] -> bs = [])
    /\ (run (filters_on catalog inputs) w).1
       = [EvComplete (PDict [("filters", PList (list_filters catalog))]); EvAck]
    /\ (run (filters_on catalog inputs) calm).2 = Ok tt.
Proof.
  exists (set_iter (unique_bands catalog)).
  split; [done|]. split; [done|].
  split; [apply set_iter_NoDup|].
  split; [intros b; rewrite set_iter_elem_of; apply unique_bands_spec|].
  split; [|split; [apply filters_on_trace|done]].
  intros ->. apply Permutation_nil_r. rewrite set_iter_perm.
  unfold unique_bands. cbn. by rewrite elements_empty.
Qed.

(** C3, as the code has it: the [bands] definition has one option per
    distinct band of the catalog, so as many options as there are
    distinct bands; for the seeded catalog that is 6. *)
Theorem bands_options_size catalog :
  exists defn,
    filter_named "bands" (list_filters catalog) = Some defn
    /\ length (options_of defn) = size (unique_bands catalog)
    /\ NoDup (options_of defn)
    /\ (forall b, band_option b ∈ options_of defn
                  <-> exists song, song ∈ catalog /\ band song = b)
    /\ size (unique_bands SONGS) = 6.
Proof.
  eexists. split; [reflexivity|]. cbn.
  split; [by rewrite length_fmap, set_iter_length|].
  split; [apply (NoDup_fmap_2 _), set_iter_NoDup|].
  split; [|by vm_compute].
  intros b. rewrite (list_elem_of_fmap_inj _), set_iter_elem_of.
  apply unique_bands_spec.
Qed.
End FilterRegistry.

(** C3, as the specification has it, fails on the seeded catalog: its
    [bands] definition has 6 options, not 9. *)
Lemma seeded_bands_options_not_nine :
  (length <$> (options_of <$> filter_named "bands" (list_filters SONGS))) = Some 6
  /\ size (unique_bands SONGS) = 6
  /\ size (unique_bands SONGS) <> 9.
Proof. split; [by vm_compute|]. split; by vm_compute. Qed.

(** ** Acknowledgment *)

(** The filters handler acknowledges exactly once, whatever raises. *)
Lemma filters_on_acknowledges `{SetIteration} catalog inputs (w : world) :
  acks (run (filters_on catalog inputs) w).1 = 1.
Proof. by rewrite filters_on_trace. Qed.

(** The search handler acknowledges exactly once as soon as its guarded
    block is entered, whatever raises inside it. *)
Lemma search_on_acknowledges catalog inputs filters (w : world) :
  subscript inputs "filters" = Ok filters ->
  (exists d, filters = PDict d) ->
  acks (run (search_on catalog inputs) w).1 = 1.
Proof.
  intros Hf [d ->]. unfold run, search_on, bind, lift, try_finally.
  rewrite Hf. cbn.
  destruct (filter_songs catalog _ _); cbn;
    repeat (match goal with |- context [w ?tr ?ev] => destruct (w tr ev) end; cbn);
    reflexivity.
Qed.

(** C5 fails for the search handler: the selection is read before the
    guarded block, so an invocation whose inputs have no [filters] ends
    with the [KeyError] and without any acknowledgment. *)
Theorem search_without_filters_not_acknowledged (w : world) :
  run (handle_search_step_event (PDict [])) w = ([], Raise (KeyError "filters"))
  /\ acks (run (handle_search_step_event (PDict [])) w).1 = 0
  /\ run (handle_search_step_event (PDict [("filters", PNone)])) w
     = ([], Raise (AttributeError "'NoneType' object has no attribute 'get'")).
Proof. done. Qed.

(** ** Malformed selections *)





(** ** Entity details *)

(** The payload is a function of the trigger id and of the url alone. *)
Lemma flexpane_payload_reads (event : pyval) :
  flexpane_payload event
  = match subscript event "trigger_id" with
    | Raise e => Raise e
    | Ok trigger_id =>
        match subscript_path event ["link"; "url"] with
        | Raise e => Raise e
        | Ok url =>
            flexpane_payload
              (PDict [("trigger_id", trigger_id); ("link", PDict [("url", url)])])
        end
    end.
Proof.
  unfold flexpane_payload. cbn [subscript_path].
  destruct (subscript event "trigger_id"); [|done].
  destruct (subscript event "link") as [lnk|]; [|done].
  by destruct (subscript lnk "url").
Qed.

(** What the entity-details handler forwards: its payload, when there
    is one. *)
Lemma flexpane_forwarded event body (w : world) :
  forwarded (run (handle_flexpane_event event body) w).1
  = match flexpane_payload event with
    | Ok payload => [("entity.presentDetails", payload)]
    | Raise _ => []
    end.
Proof.
  unfold run, handle_flexpane_event, bind, lift, try_except, api_call, call.
  cbn. destruct (flexpane_payload event) as [payload|]; cbn; [|done].
  by destruct (w _ _).
Qed.

(** Two events whose trigger id and link url read alike, be it as the
    same value or as the same error, give the same payload and the same
    forwarded calls. *)
Lemma flexpane_same_reads (event1 event2 body1 body2 : pyval) (w1 w2 : world) :
  subscript event1 "trigger_id" = subscript event2 "trigger_id" ->
  subscript_path event1 ["link"; "url"] = subscript_path event2 ["link"; "url"] ->
  flexpane_payload event1 = flexpane_payload event2
  /\ forwarded (run (handle_flexpane_event event1 body1) w1).1
     = forwarded (run (handle_flexpane_event event2 body2) w2).1.
Proof.
  intros Htrigger Hurl.
  assert (flexpane_payload event1 = flexpane_payload event2) as Hsame
    by (by rewrite (flexpane_payload_reads event1), (flexpane_payload_reads event2),
             Htrigger, Hurl).
  split; [done|]. by rewrite !flexpane_forwarded, Hsame.
Qed.

(** C8: for two events that carry the same trigger id and the same link
    url, whatever else they carry (the referenced entity id in
    particular), whatever the bodies and the environments, the handler
    builds one and the same payload and forwards exactly it, once, to
    [entity.presentDetails]: the payload holds the trigger id and the
    url, and for the rest the fixed placeholders (reference 123, title
    hello world, description This is a description); nothing of the
    catalog or of the referenced id is in it. *)
Theorem flexpane_payload_ignores_reference
    (event1 event2 body1 body2 trigger_id url : pyval) (w1 w2 : world) :
  subscript event1 "trigger_id" = Ok trigger_id ->
  subscript event2 "trigger_id" = Ok trigger_id ->
  subscript_path event1 ["link"; "url"] = Ok url ->
  subscript_path event2 ["link"; "url"] = Ok url ->
  exists payload,
    payload
    = PDict [
        ("trigger_id", trigger_id);
        ("metadata", PDict [
          ("entity_type", PStr "slack#/entities/item");
          ("url", url);
          ("external_ref", PDict [("id", PStr "123")]);
          ("entity_payload", PDict [
            ("attributes", PDict [
              ("title", PDict [
                ("text", PStr "hello world");
                ("edit", PDict [
                  ("enabled", PBool true);
                  ("text", PDict [("max_length", PInt 50)])])])]);
            ("custom_fields", PList [
              PDict [("key", PStr "description");
                     ("label", PStr "Description");
                     ("type", PStr "string");
                     ("value", PStr "This is a description")]])])])]
    /\ flexpane_payload event1 = Ok payload
    /\ flexpane_payload event2 = Ok payload
    /\ forwarded (run (handle_flexpane_event event1 body1) w1).1
       = [("entity.presentDetails", payload)]
    /\ forwarded (run (handle_flexpane_event event2 body2) w2).1
       = [("entity.presentDetails", payload)]
    /\ subscript_path payload ["metadata"; "external_ref"]
       = Ok (PDict [("id", PStr "123")])
    /\ subscript_path payload
         ["metadata"; "entity_payload"; "attributes"; "title"; "text"]
       = Ok (PStr "hello world")
    /\ subscript_path payload ["metadata"; "entity_payload"; "custom_fields"]
       = Ok (PList [PDict [("key", PStr "description");
                           ("label", PStr "Description");
                           ("type", PStr "string");
                           ("value", PStr "This is a description")]]).
Proof.
  intros Htrigger1 Htrigger2 Hurl1 Hurl2. eexists. split; [reflexivity|].
  assert (forall event, subscript event "trigger_id" = Ok trigger_id ->
                        subscript_path event ["link"; "url"] = Ok url ->
                        flexpane_payload event = Ok _) as Hbuilt
    by (intros event Ht Hu; by rewrite flexpane_payload_reads, Ht, Hu).
  split; [by apply Hbuilt|]. split; [by apply Hbuilt|].
  rewrite !flexpane_forwarded, (Hbuilt event1), (Hbuilt event2) by done.
  by repeat split.
Qed.

Lemma flexpane_payload_ignores_reference_witness :
  exists payload,
    flexpane_payload
      (PDict [("trigger_id", PStr "T1");
              ("link", PDict [("url", PStr "https://example.com/queen/bohemian-rhapsody");
                              ("domain", PStr "example.com")]);
              ("external_ref", PDict [("id", PStr "queen-001")])])
    = Ok payload
    /\ forwarded
         (run (handle_flexpane_event
                 (PDict [("trigger_id", PStr "T1");
                         ("link", PDict [("url", PStr "https://example.com/queen/bohemian-rhapsody");
                                         ("domain", PStr "example.com")]);
                         ("external_ref", PDict [("id", PStr "queen-001")])])
                 PNone) calm).1
       = [("entity.presentDetails", payload)]
    /\ forwarded
         (run (handle_flexpane_event
                 (PDict [("external_ref", PDict [("id", PStr "pf-001")]);
                         ("link", PDict [("url", PStr "https://example.com/queen/bohemian-rhapsody")]);
                         ("trigger_id", PStr "T1")])
                 (PDict [("team_id", PStr "T0")]))
              (fun _ _ => Some (ExternalError "not_allowed"))).1
       = [("entity.presentDetails", payload)]
    /\ subscript_path payload ["metadata"; "external_ref"]
       = Ok (PDict [("id", PStr "123")]).
Proof.
  destruct (flexpane_payload_ignores_reference
              (PDict [("trigger_id", PStr "T1");
                      ("link", PDict [("url", PStr "https://example.com/queen/bohemian-rhapsody");
                                      ("domain", PStr "example.com")]);
                      ("external_ref", PDict [("id", PStr "queen-001")])])
              (PDict [("external_ref", PDict [("id", PStr "pf-001")]);
                      ("link", PDict [("url", PStr "https://example.com/queen/bohemian-rhapsody")]);
                      ("trigger_id", PStr "T1")])
              PNone (PDict [("team_id", PStr "T0")])
              (PStr "T1") (PStr "https://example.com/queen/bohemian-rhapsody")
              calm (fun _ _ => Some (ExternalError "not_allowed"))
              eq_refl eq_refl eq_refl eq_refl)
    as (payload & _ & Hbuilt & _ & Hforward1 & Hforward2 & Href & _).
  exists payload. by repeat split.
Defined.

(** C9: when the payload has been built and the call to the
    presentation API raises, the handler logs the error and returns
    normally: the exception does not leave it. *)
Theorem flexpane_api_failure_logged (event body payload : pyval) (w : world) (e : exn) :
  flexpane_payload event = Ok payload ->
  w [EvLogInfo "entity_details_requested body: " body;
     EvLogInfo "entity_details_requested event: " event]
    (EvApiCall "entity.presentDetails" payload) = Some e ->
  run (handle_flexpane_event event body) w
  = ([EvLogInfo "entity_details_requested body: " body;
      EvLogInfo "entity_details_requested event: " event;
      EvApiCall "entity.presentDetails" payload;
      EvLogError ("Error calling entity.presentDetails: " +:+ exn_str e)],
     Ok tt).
Proof.
  intros Hpayload Hfail.
  unfold run, handle_flexpane_event, bind, lift, try_except, api_call, call.
  cbn. rewrite Hpayload. cbn. by rewrite Hfail.
Qed.

Lemma flexpane_api_failure_logged_witness :
  (run (handle_flexpane_event
          (PDict [("trigger_id", PStr "T1");
                  ("link", PDict [("url", PStr "https://example.com/acdc/back-in-black")]);
                  ("external_ref", PDict [("id", PStr "acdc-001")])])
          PNone)
       (fun _ _ => Some (ExternalError "not_allowed"))).2
  = Ok tt.
Proof.
  refine (f_equal snd (flexpane_api_failure_logged _ PNone _
                         (fun _ _ => Some (ExternalError "not_allowed"))
                         (ExternalError "not_allowed") _ _));
    reflexivity.
Defined.

(** Whatever the presentation API does, an exception leaves the handler
    only when the payload could not be built from the event. *)
Lemma flexpane_raises_only_from_payload event body (w : world) :
  (run (handle_flexpane_event event body) w).2
  = match flexpane_payload event with
    | Ok _ => Ok tt
    | Raise e => Raise e
    end.
Proof.
  unfold run, handle_flexpane_event, bind, lift, try_except, api_call, call.
  cbn. destruct (flexpane_payload event) as [payload|]; cbn; [|done].
  by destruct (w _ _).
Qed.

(** * Further properties of the handlers *)

(** ** The search handler: acknowledgment and failure *)

(** X1: the search handler acknowledges exactly once, as its last act,
    as soon as the [filters] of its inputs is a mapping, whatever the
    selection holds and whatever raises afterwards; when the inputs have
    no [filters], or one that is no mapping, it raises before doing
    anything at all. *)
Theorem search_acknowledgment_cases catalog inputs (w : world) :
  match subscript inputs "filters" with
  | Ok (PDict _) =>
      acks (run (search_on catalog inputs) w).1 = 1
      /\ last (run (search_on catalog inputs) w).1 = Some EvAck
  | Ok v =>
      run (search_on catalog inputs) w
      = ([], Raise (AttributeError
                      ("'" +:+ type_name v +:+ "' object has no attribute 'get'")))
  | Raise e => run (search_on catalog inputs) w = ([], Raise e)
  end.
Proof.
  unfold run, search_on, bind, lift, try_finally.
  destruct (subscript inputs "filters") as [[| | | | |d]|e]; try reflexivity.
  cbn. destruct (filter_songs catalog _ _); cbn;
    repeat (match goal with |- context [w ?tr ?ev] => destruct (w tr ev) end; cbn);
    by split.
Qed.

(** X2: the filters handler always attempts the completion and then
    the acknowledgment; an exception of the completion leaves it after
    the acknowledgment, and an exception of the acknowledgment takes
    its place. *)
Theorem filters_outcome `{SetIteration} catalog inputs (w : world) :
  let completion := EvComplete (PDict [("filters", PList (list_filters catalog))]) in
  run (filters_on catalog inputs) w
  = ([completion; EvAck],
     match w [completion] EvAck with
     | Some e => Raise e
     | None =>
         match w [] completion with
         | Some e => Raise e
         | None => Ok tt
         end
     end).
Proof.
  unfold run, filters_on, try_finally, complete, ack, call. cbn.
  repeat (match goal with |- context [w ?tr ?ev] => destruct (w tr ev) end; cbn);
    reflexivity.
Qed.

(** X3: when the narrowing raises inside the guarded block, the handler
    acknowledges and lets the exception out without ever completing
    (and there is no failure signal): the caller gets no result. *)
Theorem search_failure_skips_completion
    catalog inputs filters single bands (e : exn) (w : world) :
  subscript inputs "filters" = Ok filters ->
  py_get filters "is_single" (PBool false) = Ok single ->
  py_get filters "bands" (PList []) = Ok bands ->
  filter_songs catalog single bands = Raise e ->
  run (search_on catalog inputs) w
  = ([EvAck], match w [] EvAck with Some e' => Raise e' | None => Raise e end).
Proof.
  intros Hf Hs Hb Hraise. unfold run, search_on, bind, lift, try_finally.
  rewrite Hf. cbn. rewrite Hs. cbn. rewrite Hb. cbn. rewrite Hraise. cbn.
  by destruct (w [] EvAck).
Qed.

Lemma search_failure_skips_completion_witness :
  run (handle_search_step_event
         (PDict [("filters", PDict [("bands", PBool true)])])) calm
  = ([EvAck], Raise (TypeError "argument of type 'bool' is not iterable")).
Proof.
  exact (search_failure_skips_completion SONGS
           (PDict [("filters", PDict [("bands", PBool true)])])
           (PDict [("bands", PBool true)]) (PBool false) (PBool true)
           (TypeError "argument of type 'bool' is not iterable") calm
           eq_refl eq_refl eq_refl eq_refl).
Defined.

(** X4: when the completion call raises and the acknowledgment does
    not, the handler has still acknowledged, after the attempt to
    complete, and the exception of the completion leaves it. *)
Theorem search_completion_failure_propagates
    catalog inputs filters single bands found (e : exn) (w : world) :
  subscript inputs "filters" = Ok filters ->
  py_get filters "is_single" (PBool false) = Ok single ->
  py_get filters "bands" (PList []) = Ok bands ->
  filter_songs catalog single bands = Ok found ->
  w [EvLogInfo "Generated results: " (PList (map search_result found))]
    (EvComplete (PDict [("search_result", PList (map search_result found))]))
  = Some e ->
  w [EvLogInfo "Generated results: " (PList (map search_result found));
     EvComplete (PDict [("search_result", PList (map search_result found))])]
    EvAck = None ->
  run (search_on catalog inputs) w = (search_trace found, Raise e).
Proof.
  intros Hf Hs Hb Hfound Hcomplete Hack.
  rewrite (search_on_run _ _ _ _ _ _ _ Hf Hs Hb Hfound).
  unfold search_outcome. cbn. by rewrite Hack, Hcomplete.
Qed.

Lemma search_completion_failure_propagates_witness :
  run (handle_search_step_event (PDict [("filters", PDict [])])) completion_down
  = (search_trace SONGS, Raise (ExternalError "connection reset")).
Proof.
  exact (search_completion_failure_propagates SONGS
           (PDict [("filters", PDict [])]) (PDict []) (PBool false)
           (PList []) SONGS (ExternalError "connection reset") completion_down
           eq_refl eq_refl eq_refl eq_refl eq_refl eq_refl).
Defined.

(** X5: the search handler reads nothing of its inputs but [filters]:
    two invocations that agree on it behave alike (a query string, for
    one, plays no part). *)
Theorem search_reads_only_filters catalog inputs1 inputs2 (w : world) :
  subscript inputs1 "filters" = subscript inputs2 "filters" ->
  run (search_on catalog inputs1) w = run (search_on catalog inputs2) w.
Proof.
  intros Hsame. unfold run, search_on, bind, lift. by rewrite Hsame.
Qed.

Lemma search_reads_only_filters_witness :
  run (handle_search_step_event
         (PDict [("query", PStr "numb"); ("filters", PDict [("is_single", PBool true)])]))
      calm
  = run (handle_search_step_event
           (PDict [("filters", PDict [("is_single", PBool true)]);
                   ("query", PStr "black")]))
        calm.
Proof.
  exact (search_reads_only_filters SONGS
           (PDict [("query", PStr "numb");
                   ("filters", PDict [("is_single", PBool true)])])
           (PDict [("filters", PDict [("is_single", PBool true)]);
                   ("query", PStr "black")])
           calm eq_refl).
Defined.

(** ** The narrowing steps on any selection values *)

Section FilterResultFacts.
Context {A : Type} (p : A -> result bool).

Lemma filter_result_sublist (l r : list A) :
  filter_result p l = Ok r -> r `sublist_of` l.
Proof.
  revert r. induction l as [|x l IH]; intros r; cbn.
  - by intros [= <-].
  - destruct (p x) as [b|]; [|done].
    destruct (filter_result p l) as [r'|]; [|done].
    intros [= <-]. destruct b; [apply sublist_skip|apply sublist_cons]; by apply IH.
Qed.

Lemma filter_result_kept (l r : list A) :
  filter_result p l = Ok r -> forall x, x ∈ r -> p x = Ok true.
Proof.
  revert r. induction l as [|x l IH]; intros r; cbn.
  - intros [= <-] y Hy. by apply elem_of_nil in Hy.
  - destruct (p x) as [b|] eqn:Hx; [|done].
    destruct (filter_result p l) as [r'|]; [|done].
    intros [= <-] y Hy. destruct b; [|by eapply IH].
    apply elem_of_cons in Hy as [->|Hy]; [done|by eapply IH].
Qed.

Lemma filter_result_all_kept (l : list A) :
  (forall x, x ∈ l -> p x = Ok true) -> filter_result p l = Ok l.
Proof.
  induction l as [|x l IH]; intros Hp; [done|]. cbn.
  rewrite (Hp x) by apply list_elem_of_here.
  by rewrite IH by (intros y Hy; by apply Hp, list_elem_of_further).
Qed.

Lemma filter_result_filter (P : A -> Prop) `{!forall x, Decision (P x)} (l r : list A) :
  filter_result p l = Ok r -> filter_result p (filter P l) = Ok (filter P r).
Proof.
  revert r. induction l as [|x l IH]; intros r; cbn [filter_result].
  - by intros [= <-].
  - destruct (p x) as [b|] eqn:Hx; [|done].
    destruct (filter_result p l) as [r'|]; [|done].
    intros [= <-]. rewrite filter_cons. destruct (decide (P x)) as [HP|HP].
    + cbn [filter_result]. rewrite Hx, (IH r') by done.
      destruct b; [by rewrite filter_cons_True|done].
    + rewrite (IH r') by done. destruct b; [by rewrite filter_cons_False|done].
Qed.
End FilterResultFacts.

Lemma filter_result_error {A} (e : exn) (l : list A) :
  filter_result (fun _ => Raise e) l
  = match l with [] => Ok [] | _ :: _ => Raise e end.
Proof. by destruct l. Qed.

Lemma singles_step_sublist catalog single : singles_step catalog single `sublist_of` catalog.
Proof. unfold singles_step. destruct (truthy single); [apply sublist_filter|done]. Qed.

Lemma filter_songs_steps catalog single bands :
  filter_songs catalog single bands
  = if truthy bands
    then filter_result (fun song => str_in (band song) bands) (singles_step catalog single)
    else Ok (singles_step catalog single).
Proof. reflexivity. Qed.

Lemma filter_songs_kept catalog single bands found :
  filter_songs catalog single bands = Ok found ->
  found `sublist_of` catalog
  /\ (truthy single = true -> forall song, song ∈ found -> is_single song = true)
  /\ (truthy bands = true ->
      forall song, song ∈ found -> str_in (band song) bands = Ok true).
Proof.
  rewrite filter_songs_steps. intros Hfound.
  assert (found `sublist_of` singles_step catalog single) as Hsub.
  { destruct (truthy bands); [by eapply filter_result_sublist|by injection Hfound as <-]. }
  split; [etrans; [done|apply singles_step_sublist]|]. split.
  - intros Hs song Hsong. eapply elem_of_sublist in Hsong; [|done].
    unfold singles_step in Hsong. rewrite Hs in Hsong.
    by apply list_elem_of_filter in Hsong as [? _].
  - intros Hb. rewrite Hb in Hfound. by eapply filter_result_kept.
Qed.

(** X6: whatever the selection values, a search that returns keeps
    catalog order, returns only singles when [is_single] is truthy and
    only entities that passed the membership test when [bands] is
    truthy. *)
Theorem filter_songs_sound catalog single bands found :
  filter_songs catalog single bands = Ok found ->
  found `sublist_of` catalog
  /\ (truthy single = true -> forall song, song ∈ found -> is_single song = true)
  /\ (truthy bands = true ->
      forall song, song ∈ found -> str_in (band song) bands = Ok true).
Proof. apply filter_songs_kept. Qed.

Lemma filter_songs_sound_witness :
  (take 1 (drop 8 SONGS)) `sublist_of` SONGS.
Proof.
  exact (proj1 (filter_songs_sound SONGS (PBool true) (PStr "Queen, live")
                  (take 1 (drop 8 SONGS)) eq_refl)).
Defined.

(** X7: searching again, with the same selection, in what a search
    returned changes nothing. *)
Theorem filter_songs_idempotent catalog single bands found :
  filter_songs catalog single bands = Ok found ->
  filter_songs found single bands = Ok found.
Proof.
  intros Hfound. destruct (filter_songs_kept _ _ _ _ Hfound) as (_ & Hs & Hb).
  rewrite filter_songs_steps.
  assert (singles_step found single = found) as ->.
  { unfold singles_step. destruct (truthy single); [|done].
    apply filter_everything. by apply Hs. }
  destruct (truthy bands); [|done].
  apply filter_result_all_kept. by apply Hb.
Qed.

Lemma filter_songs_idempotent_witness :
  filter_songs (drop 8 SONGS) (PBool true)
    (PList [PStr "Queen"; PStr "AC/DC"])
  = Ok (drop 8 SONGS).
Proof.
  exact (filter_songs_idempotent SONGS (PBool true)
           (PList [PStr "Queen"; PStr "AC/DC"]) (drop 8 SONGS) eq_refl).
Defined.

(** X8: the two narrowing steps commute: when the search without the
    singles filter returns, the search with it returns too, and it
    returns the singles of the former (all of it when [is_single] is
    falsy). *)
Theorem singles_filter_commutes catalog single bands found :
  filter_songs catalog (PBool false) bands = Ok found ->
  filter_songs catalog single bands
  = Ok (if truthy single then filter (fun song => is_single song = true) found
        else found).
Proof.
  rewrite !filter_songs_steps. unfold singles_step. cbn [truthy].
  destruct (truthy single); [|done].
  destruct (truthy bands).
  - apply filter_result_filter.
  - by intros [= <-].
Qed.

Lemma singles_filter_commutes_witness :
  filter_songs SONGS (PInt 1) (PList [PStr "Rolling Stones"])
  = Ok (filter (fun song => is_single song = true) (take 2 (drop 3 SONGS))).
Proof.
  exact (singles_filter_commutes SONGS (PInt 1) (PList [PStr "Rolling Stones"])
           (take 2 (drop 3 SONGS)) eq_refl).
Defined.

(** X9: a truthy [bands] that is not iterable (a number, [True]) makes
    the search raise [TypeError] exactly when an entity is left to test
    after the singles step; when none is left the search returns the
    empty list. *)
Theorem filter_songs_not_iterable catalog single bands :
  collection_or_falsy bands = false ->
  filter_songs catalog single bands
  = match singles_step catalog single with
    | [] => Ok []
    | _ :: _ =>
        Raise (TypeError ("argument of type '" +:+ type_name bands
                          +:+ "' is not iterable"))
    end.
Proof.
  intros Hb. rewrite filter_songs_steps.
  destruct bands as [|b|z|t|l|d]; cbn [collection_or_falsy] in Hb; try done;
    apply negb_false_iff in Hb; rewrite Hb; apply filter_result_error.
Qed.

Lemma filter_songs_not_iterable_witness :
  filter_songs (filter (fun song => band song = "Pink Floyd") SONGS) (PBool true) (PInt 5)
  = Ok [].
Proof.
  exact (filter_songs_not_iterable
           (filter (fun song => band song = "Pink Floyd") SONGS)
           (PBool true) (PInt 5) eq_refl).
Defined.

(** ** Selections of unexpected shape *)

Lemma prefix_spec (s t : string) :
  String.prefix s t = true <-> exists post, t = s +:+ post.
Proof.
  revert t. induction s as [|a s IH]; intros [|b t]; cbn.
  - split; [by exists ""|done].
  - split; [by exists (String b t)|done].
  - split; [done|by intros [post [=]]].
  - destruct (Ascii.ascii_dec a b) as [->|Hne].
    + rewrite IH. split; intros [post Hpost]; exists post;
        [by rewrite Hpost|by injection Hpost].
    + split; [done|]. intros [post [= ? _]]. done.
Qed.

Lemma str_contains_spec (t s : string) :
  str_contains t s = true <-> exists pre post, t = pre +:+ s +:+ post.
Proof.
  induction t as [|a t IH]; cbn [str_contains]; rewrite orb_true_iff, prefix_spec.
  - split.
    + intros [[post ->]|[=]]. by exists "", post.
    + intros (pre & post & Heq). left. destruct pre; [by exists post|done].
  - rewrite IH. split.
    + intros [[post ->]|(pre & post & ->)]; [by exists "", post|].
      by exists (String a pre), post.
    + intros (pre & post & Heq). destruct pre as [|b pre]; [left; by exists post|].
      right. injection Heq as -> ->. by exists pre, post.
Qed.

Lemma existsb_strings_of (s : string) (l : list pyval) :
  existsb (str_eq_val s) l = bool_decide (s ∈ strings_of l).
Proof.
  induction l as [|v l IH]; [done|]. cbn [existsb]. rewrite IH.
  destruct v as [|b|z|t|l'|d]; try done.
  cbn [str_eq_val strings_of omap list_omap].
  destruct (String.eqb_spec s t) as [->|Hne]; cbn [orb].
  - symmetry. apply bool_decide_eq_true_2, list_elem_of_here.
  - apply bool_decide_ext. unfold strings_of. rewrite elem_of_cons. tauto.
Qed.

(** X10: a [bands] value that is one non-empty string is taken as a
    container of characters: the search returns, in catalog order, the
    entities left by the singles step whose band occurs in the string
    as a substring. *)
Theorem filter_songs_string_bands catalog single (t : string) :
  t <> "" ->
  filter_songs catalog single (PStr t)
  = Ok (filter (fun song => str_contains t (band song) = true)
               (singles_step catalog single))
  /\ forall song, str_contains t (band song) = true
                  <-> exists pre post, t = pre +:+ band song +:+ post.
Proof.
  intros Ht. split; [|intros; apply str_contains_spec].
  rewrite filter_songs_steps. cbn [truthy].
  destruct (String.eqb_spec t "") as [|_]; [done|]. cbn [negb].
  by apply filter_result_total.
Qed.

Lemma filter_songs_string_bands_witness :
  titles (filter_songs SONGS (PBool false) (PStr "Queen and Led Zeppelin"))
  = Ok ["Stairway to Heaven"; "Bohemian Rhapsody"].
Proof.
  rewrite (proj1 (filter_songs_string_bands SONGS (PBool false)
                    "Queen and Led Zeppelin" ltac:(discriminate))).
  reflexivity.
Defined.

(** X11: in a non-empty [bands] list only the strings count: the search
    returns the entities left by the singles step whose band is one of
    the strings of the list, so a list without any string finds
    nothing. *)
Theorem filter_songs_list_bands catalog single (l : list pyval) :
  l <> [] ->
  filter_songs catalog single (PList l)
  = Ok (filter (fun song => band song ∈ strings_of l) (singles_step catalog single))
  /\ (strings_of l = [] -> filter_songs catalog single (PList l) = Ok []).
Proof.
  intros Hl.
  assert (filter_songs catalog single (PList l)
          = Ok (filter (fun song => band song ∈ strings_of l)
                       (singles_step catalog single))) as Heq.
  { rewrite filter_songs_steps. destruct l as [|v l]; [done|]. cbn [truthy].
    rewrite (filter_result_total _ (fun song => bool_decide (band song ∈ strings_of (v :: l))))
      by (intros; cbn [str_in]; by rewrite existsb_strings_of).
    f_equal. apply list_filter_iff. intros song. apply bool_decide_eq_true. }
  split; [done|]. intros Hnone. rewrite Heq, Hnone. f_equal.
  clear Heq. induction (singles_step catalog single) as [|song songs IH]; [done|].
  rewrite filter_cons_False; [exact IH|]. apply not_elem_of_nil.
Qed.

Lemma filter_songs_list_bands_witness :
  filter_songs SONGS (PBool false) (PList [PInt 7; PNone]) = Ok [].
Proof.
  exact (proj2 (filter_songs_list_bands SONGS (PBool false) [PInt 7; PNone]
                  ltac:(discriminate)) eq_refl).
Defined.

(** ** The filter registry and the search together *)

Lemma filter_iff_in {A} (P Q : A -> Prop)
    `{!forall x, Decision (P x)} `{!forall x, Decision (Q x)} (l : list A) :
  (forall x, x ∈ l -> P x <-> Q x) -> filter P l = filter Q l.
Proof.
  induction l as [|x l IH]; intros HPQ; [done|].
  rewrite !filter_cons, IH by (intros y Hy; by apply HPQ, list_elem_of_further).
  destruct (decide (P x)) as [HP|HP].
  - by rewrite decide_True by (by apply HPQ; [apply list_elem_of_here|]).
  - rewrite decide_False; [done|]. intros HQ. by apply HP, HPQ; [apply list_elem_of_here|].
Qed.

Section RegistryAndSearch.
Context `{SetIteration}.

(** X12: selecting every band the filters handler offers is the same
    as selecting none: with no singles filter the search returns the
    whole catalog. *)
Theorem all_offered_bands_select_catalog catalog single :
  filter_songs catalog single (PList (PStr <$> set_iter (unique_bands catalog)))
  = filter_songs catalog single (PList [])
  /\ filter_songs catalog (PBool false)
       (PList (PStr <$> set_iter (unique_bands catalog)))
     = Ok catalog.
Proof.
  assert (forall s, filter (selected s (set_iter (unique_bands catalog))) catalog
                    = filter (selected s []) catalog) as Hall.
  { intros s. apply filter_iff_in. intros song Hsong. unfold selected.
    assert (band song ∈ set_iter (unique_bands catalog))
      by (apply set_iter_elem_of, unique_bands_spec; by exists song).
    split; intros [? _]; (split; [done|]);
      [intros Hne; destruct (Hne eq_refl)|intros _; assumption]. }
  rewrite !filter_songs_selected, !Hall.
  split; [by rewrite <- (filter_songs_selected catalog single [])|].
  f_equal. apply filter_everything. intros song _.
  split; [cbn; discriminate|intros Hne; destruct (Hne eq_refl)].
Qed.

(** X13: every option the filters handler offers is a band that the
    search finds: with [bands] set to the value of the option alone,
    the search returns at least one entity, and only entities of that
    band. *)
Theorem offered_option_finds_entities catalog defn opt :
  filter_named "bands" (list_filters catalog) = Some defn ->
  opt ∈ options_of defn ->
  exists b found song,
    subscript opt "value" = Ok (PStr b)
    /\ filter_songs catalog (PBool false) (PList [PStr b]) = Ok found
    /\ song ∈ found
    /\ forall s, s ∈ found -> band s = b.
Proof.
  intros [= <-]. cbn. intros (b & -> & Hb)%list_elem_of_fmap.
  apply set_iter_elem_of, unique_bands_spec in Hb as (song & Hsong & Hband).
  exists b, (filter (selected (PBool false) [b]) catalog), song.
  split; [done|]. split; [apply (filter_songs_selected catalog (PBool false) [b])|].
  split.
  - apply list_elem_of_filter. split; [|done]. split; [done|].
    intros _. rewrite Hband. apply list_elem_of_here.
  - intros s [[_ Hs] _]%list_elem_of_filter.
    by apply list_elem_of_singleton, Hs.
Qed.
End RegistryAndSearch.

Lemma offered_option_finds_entities_witness :
  exists b found song,
    subscript (band_option "Queen") "value" = Ok (PStr b)
    /\ filter_songs SONGS (PBool false) (PList [PStr b]) = Ok found
    /\ song ∈ found
    /\ forall s, s ∈ found -> band s = b.
Proof.
  apply (offered_option_finds_entities SONGS
           (PDict [("name", PStr "bands");
                   ("display_name", PStr "Bands");
                   ("type", PStr "multi_select");
                   ("options",
                    PList (band_option <$> set_iter (unique_bands SONGS)))])
           (band_option "Queen") eq_refl).
  change (band_option "Queen" ∈ band_option <$> set_iter (unique_bands SONGS)).
  apply list_elem_of_fmap_2, set_iter_elem_of, elem_of_list_to_set.
  do 8 apply list_elem_of_further. apply list_elem_of_here.
Defined.

(** ** The projection, again *)

(** X14: a projected record determines the entity up to its band and
    its singles flag, and nothing more: two entities have the same
    record exactly when they agree on id, title, description, link,
    date and content. *)
Theorem search_result_determines (song1 song2 : Song) :
  search_result song1 = search_result song2
  <-> id song1 = id song2 /\ title song1 = title song2
      /\ description song1 = description song2 /\ link song1 = link song2
      /\ date_updated song1 = date_updated song2
      /\ content song1 = content song2.
Proof.
  unfold search_result. split.
  - destruct (content song1), (content song2); intros [=]; by repeat split; subst.
  - by intros (-> & -> & -> & -> & -> & ->).
Qed.

(** ** Entity details, again *)

(** X15: an event from which the payload cannot be built (no trigger
    id, no link, no url) makes the handler raise, after its two log
    lines and without any call to the presentation API: these errors
    are not caught. *)
Theorem flexpane_bad_event_propagates (event body : pyval) (e : exn) (w : world) :
  flexpane_payload event = Raise e ->
  run (handle_flexpane_event event body) w
  = ([EvLogInfo "entity_details_requested body: " body;
      EvLogInfo "entity_details_requested event: " event],
     Raise e).
Proof.
  intros Hpayload. unfold run, handle_flexpane_event, bind, lift.
  cbn. by rewrite Hpayload.
Qed.

Lemma flexpane_bad_event_propagates_witness :
  run (handle_flexpane_event
         (PDict [("trigger_id", PStr "T1"); ("link", PStr "https://example.com")])
         PNone) calm
  = ([EvLogInfo "entity_details_requested body: " PNone;
      EvLogInfo "entity_details_requested event: "
        (PDict [("trigger_id", PStr "T1"); ("link", PStr "https://example.com")])],
     Raise (TypeError "string indices must be integers, not 'str'")).
Proof.
  exact (flexpane_bad_event_propagates
           (PDict [("trigger_id", PStr "T1"); ("link", PStr "https://example.com")])
           PNone (TypeError "string indices must be integers, not 'str'") calm eq_refl).
Defined.

(** X16: the payload carries the trigger id and the link url of the
    event unchanged, whatever values they are, under [trigger_id] and
    [metadata.url], with the fixed entity type. *)
Theorem flexpane_payload_echoes (event trigger_id url : pyval) :
  subscript event "trigger_id" = Ok trigger_id ->
  subscript_path event ["link"; "url"] = Ok url ->
  exists payload,
    flexpane_payload event = Ok payload
    /\ subscript payload "trigger_id" = Ok trigger_id
    /\ subscript_path payload ["metadata"; "url"] = Ok url
    /\ subscript_path payload ["metadata"; "entity_type"]
       = Ok (PStr "slack#/entities/item")
    /\ keys_of payload = ["trigger_id"; "metadata"].
Proof.
  intros Htrigger Hurl. rewrite flexpane_payload_reads, Htrigger, Hurl.
  by eexists.
Qed.

Lemma flexpane_payload_echoes_witness :
  exists payload,
    flexpane_payload
      (PDict [("link", PDict [("domain", PStr "example.com");
                              ("url", PStr "https://example.com/queen")]);
              ("trigger_id", PInt 42)])
    = Ok payload
    /\ subscript payload "trigger_id" = Ok (PInt 42)
    /\ subscript_path payload ["metadata"; "url"] = Ok (PStr "https://example.com/queen").
Proof.
  destruct (flexpane_payload_echoes
              (PDict [("link", PDict [("domain", PStr "example.com");
                                      ("url", PStr "https://example.com/queen")]);
                      ("trigger_id", PInt 42)])
              (PInt 42) (PStr "https://example.com/queen") eq_refl eq_refl)
    as (payload & Hpayload & Htrigger & Hurl & _).
  exists payload. by repeat split.
Defined.
